(** * gcd-labs: the GCD compute service and its HTTP gateway

    A shallow embedding of the two Go programs of the repository:
    - [server/main.go]: the gRPC method [Computer], an iterative Euclidean
      algorithm over [uint64];
    - [api/main.go]: the gin handler of [GET /gcd/:a/:b], which parses the two
      path parameters, calls the compute service and relays the outcome as
      JSON.

    [uint64] values are integers of [Z] in the range [0 .. 2^64-1]; the
    arithmetic of the source that can wrap is written with [wrap64]. *)

From Stdlib Require Import ZArith Znumtheory List String Ascii Bool Lia.
Import ListNotations.

Local Open Scope string_scope.
Local Open Scope Z_scope.

(** ** Machine integers *)

(** [math.MaxUint64]. *)
Definition uint64_max : Z := 2 ^ 64 - 1.

Definition is_uint64 (x : Z) : Prop := 0 <= x <= uint64_max.

(** Modular reduction of unsigned 64-bit arithmetic. *)
Definition wrap64 (x : Z) : Z := x mod 2 ^ 64.

(** ** Outcomes of running Go code
    A function body either returns, panics (a run-time error such as an
    integer division by zero), or, in the model only, exhausts the fuel that
    bounds the number of loop tests. *)

Inductive outcome (T : Type) : Type :=
| Returns (t : T)
| Panics (msg : string)
| OutOfFuel.

Arguments Returns {T} t.
Arguments Panics {T} msg.
Arguments OutOfFuel {T}.

Definition bind {T U : Type} (m : outcome T) (k : T -> outcome U) : outcome U :=
  match m with
  | Returns t => k t
  | Panics msg => Panics msg
  | OutOfFuel => OutOfFuel
  end.

Notation "x <- m ;; k" := (bind m (fun x => k))
  (at level 61, m at next level, right associativity).

(** A Go [error] value: [None] is [nil], [Some msg] an error whose [Error()]
    method returns [msg]. *)
Definition error : Type := option string.

(** ** Package [proto] *)

Module proto.

(** Modelled from the spec: the generated file [proto/gcd.pb.go] is missing;
    the spec gives [GCDRequest] as two unsigned 64-bit fields [A] and [B]. *)
Record GCDRequest : Type := { A : Z; B : Z }.

(** Modelled from the spec: the generated file [proto/gcd.pb.go] is missing;
    the spec gives [GCDResponse] as one unsigned 64-bit field [Result]. *)
Record GCDResponse : Type := { Result : Z }.

Definition wf_request (r : GCDRequest) : Prop :=
  is_uint64 (A r) /\ is_uint64 (B r).

End proto.

(** ** The compute service ([server/main.go]) *)

Module Server.

Import proto.

(** The [ctx context.Context] argument; [Computer] never reads it. *)
Definition Context : Type := unit.

(** Go's [a % b] on [uint64]: a run-time panic when the divisor is zero.
    Both operands are non-negative, so the truncated remainder of Go is the
    [Z.modulo] of the standard library, and the result needs no wrapping. *)
Definition rem (a b : Z) : outcome Z :=
  if b =? 0 then Panics "runtime error: integer divide by zero"
  else Returns (a mod b).

(** [for b != 0 { a, b = b, a%b }], then the value of [a].
    One unit of fuel pays for one evaluation of the loop condition. *)
Fixpoint loop (fuel : nat) (a b : Z) : outcome Z :=
  match fuel with
  | O => OutOfFuel
  | S fuel' =>
      if negb (b =? 0) then
        r <- rem a b ;;
        loop fuel' b r
      else Returns a
  end.

(** The method [Computer] of [server]: it takes the context and a request
    and returns a response together with an [error]. *)
Definition Computer (fuel : nat) (ctx : Context) (r : GCDRequest)
  : outcome (GCDResponse * error) :=
  let a := A r in
  let b := B r in
  a' <- loop fuel a b ;;
  Returns ({| Result := a' |}, None).

(** Fuel that covers every pair of 64-bit operands: the second operand at
    least halves every two iterations, and one more test leaves the loop. *)
Definition fuel64 : nat := 129.

(** The spec's [compute(A, B)]: the [Result] field of what [Computer]
    returns for the request [{A, B}]. *)
Definition compute (fuel : nat) (a b : Z) : outcome Z :=
  res <- Computer fuel tt {| A := a; B := b |} ;;
  Returns (Result (fst res)).

End Server.

(** ** Package [strconv] of the Go standard library
    The gateway calls [strconv.ParseUint(s, 10, 64)]; the function below is
    that call, with base 10 and bit size 64 fixed. *)

Module strconv.

(** The two errors a [*NumError] of [ParseUint] can wrap. *)
Inductive NumError : Type := ErrSyntax | ErrRange.

Definition byte_of (c : ascii) : Z := Z.of_N (N_of_ascii c).

(** [lower(c)]: [c | ('x' - 'X')]. *)
Definition lower (c : Z) : Z := Z.lor c 32.

(** The [switch] that turns a byte into a digit value: decimal digits, then
    letters (digits of the bases above 10); [None] for the [default] case. *)
Definition digit_value (c : Z) : option Z :=
  if (48 <=? c) && (c <=? 57) then Some (c - 48)
  else if (97 <=? lower c) && (lower c <=? 122) then Some (lower c - 97 + 10)
  else None.

Definition base : Z := 10.

(** The smallest number such that [cutoff * base > maxUint64]. *)
Definition cutoff : Z := uint64_max / 10 + 1.

(** [uint64(1)<<uint(bitSize) - 1] at bit size 64. *)
Definition maxVal : Z := wrap64 (wrap64 (Z.shiftl 1 64) - 1).

(** The loop over the bytes of the argument; [n] is the value read so far. *)
Fixpoint parse_loop (s : string) (n : Z) : Z * option NumError :=
  match s with
  | EmptyString => (n, None)
  | String ch s' =>
      match digit_value (byte_of ch) with
      | None => (0, Some ErrSyntax)
      | Some d =>
          if d >=? base then (0, Some ErrSyntax)
          else if n >=? cutoff then (maxVal, Some ErrRange)
          else
            let n10 := wrap64 (n * base) in
            let n1 := wrap64 (n10 + d) in
            if (n1 <? n10) || (n1 >? maxVal) then (maxVal, Some ErrRange)
            else parse_loop s' n1
      end
  end.

Definition ParseUint (s : string) : Z * option NumError :=
  match s with
  | EmptyString => (0, Some ErrSyntax)
  | _ => parse_loop s 0
  end.

End strconv.

(** ** Package [fmt] of the Go standard library
    [fmt.Sprint] applied to one [uint64]: the decimal digits, most
    significant first, written into the buffer from its end. *)

Module fmt.

Definition digit_char (d : Z) : ascii := ascii_of_N (Z.to_N (48 + d)).

(** [for u >= 10 { next := u / 10; buf[i] = '0' + u - next*10; u = next }],
    then the last digit. *)
Fixpoint fmt_loop (fuel : nat) (u : Z) (buf : string) : string :=
  match fuel with
  | O => buf
  | S fuel' =>
      if u >=? 10 then
        let next := u / 10 in
        fmt_loop fuel' next (String (digit_char (u - next * 10)) buf)
      else String (digit_char u) buf
  end.

(** A [uint64] has at most 20 decimal digits. *)
Definition Sprint (u : Z) : string := fmt_loop 20 u "".

End fmt.

(** ** The gateway ([api/main.go]) *)

Module Api.

Import proto.

(** Status codes of [net/http]. *)
Definition StatusOK : Z := 200.
Definition StatusBadRequest : Z := 400.
Definition StatusInternalServerError : Z := 500.
Definition StatusServiceUnavailable : Z := 503.

(** The values the handler stores in a [gin.H]: Go strings, which JSON
    encodes as strings, and unsigned integers, which JSON encodes as
    numbers. *)
Inductive value : Type :=
| VString (s : string)
| VUint64 (n : Z).

(** [gin.H], a map from keys to values; every map the handler builds has
    one key. *)
Definition H : Type := list (string * value).

(** What [c.JSON(code, obj)] writes. *)
Record Response : Type := { code : Z; obj : H }.

(** [gin.Context]: the path parameters of the matched route. *)
Record Context : Type := { Params : list (string * string) }.

(** [c.Param(key)]: the value of the first parameter named [key], the empty
    string when there is none. *)
Fixpoint ByName (ps : list (string * string)) (key : string) : string :=
  match ps with
  | [] => ""
  | (k, v) :: ps' => if String.eqb k key then v else ByName ps' key
  end.

Definition Param (c : Context) (key : string) : string := ByName (Params c) key.

(** The client stub [gcdClient.Computer(c, req)]: a response with a nil
    error, or no response and the message of the error. *)
Definition GCDServiceClient : Type := GCDRequest -> GCDResponse + string.

(** What one run of the handler does: the response it writes and the
    requests it sends to the compute service, in order. *)
Record Handled : Type := { response : Response; calls : list GCDRequest }.

(** The handler of [GET /gcd/:a/:b]. *)
Definition handler (gcdClient : GCDServiceClient) (c : Context) : Handled :=
  let (a, err) := strconv.ParseUint (Param c "a") in
  match err with
  | Some _ =>
      {| response := {| code := StatusBadRequest;
                        obj := [("error", VString "Invalid parameter A")] |};
         calls := [] |}
  | None =>
      let (b, err) := strconv.ParseUint (Param c "b") in
      match err with
      | Some _ =>
          {| response := {| code := StatusBadRequest;
                            obj := [("error", VString "Invalid parameter B")] |};
             calls := [] |}
      | None =>
          let req := {| A := a; B := b |} in
          match gcdClient req with
          | inl res =>
              {| response := {| code := StatusOK;
                                obj := [("result", VString (fmt.Sprint (Result res)))] |};
                 calls := [req] |}
          | inr msg =>
              {| response := {| code := StatusInternalServerError;
                                obj := [("error", VString msg)] |};
                 calls := [req] |}
          end
      end
  end.

(** The route [/gcd/:a/:b] matched against the path segments [a] and [b]. *)
Definition route (a b : string) : Context :=
  {| Params := [("a", a); ("b", b)] |}.

(** A client whose calls reach the compute service and come back: the
    transport adds nothing and loses nothing. *)
Definition local_client (fuel : nat) : GCDServiceClient :=
  fun req =>
    match Server.Computer fuel tt req with
    | Returns (res, None) => inl res
    | Returns (_, Some msg) => inr msg
    | Panics msg => inr msg
    | OutOfFuel => inr "context deadline exceeded"
    end.

(** A client whose every call fails in the transport. *)
Definition unreachable_client (msg : string) : GCDServiceClient :=
  fun _ => inr msg.

End Api.

(** ** The run of the loop, state by state *)

Module Trace.

(** The values of [(a, b)] at each evaluation of the condition [b != 0] of
    the loop of [Computer], in order; one unit of fuel per evaluation, as in
    [Server.loop]. *)
Fixpoint states (fuel : nat) (a b : Z) : list (Z * Z) :=
  match fuel with
  | O => []
  | S fuel' =>
      (a, b) :: (if negb (b =? 0) then states fuel' b (a mod b) else [])
  end.

(** The Fibonacci numbers, which bound the length of a run. *)
Fixpoint fib_pair (n : nat) : Z * Z :=
  match n with
  | O => (0, 1)
  | S n' => let (x, y) := fib_pair n' in (y, x + y)
  end.

Definition fib (n : nat) : Z := fst (fib_pair n).

(** The number of loop tests that every pair of 64-bit operands stays
    within: [fib 94] is the first Fibonacci number above [2^64 - 1]. *)
Definition tests64 : nat := 93.

End Trace.

(** ** Decimal notation
    What the claims call an unsigned 64-bit decimal integer: a non-empty
    string of the digits ['0'] to ['9'] whose value is at most
    [uint64_max]. This is the reference the parser and the printer are
    compared with; neither is defined from it. *)

Module Decimal.

Definition is_digit (ch : ascii) : bool :=
  (48 <=? strconv.byte_of ch) && (strconv.byte_of ch <=? 57).

Fixpoint all_digits (s : string) : bool :=
  match s with
  | EmptyString => true
  | String ch s' => is_digit ch && all_digits s'
  end.

(** The value of the digits of [s] read after a prefix of value [acc]. *)
Fixpoint value_from (s : string) (acc : Z) : Z :=
  match s with
  | EmptyString => acc
  | String ch s' => value_from s' (acc * 10 + (strconv.byte_of ch - 48))
  end.

Definition value (s : string) : Z := value_from s 0.

Definition is_uint64_literal (s : string) : bool :=
  negb (String.eqb s "") && all_digits s && (value s <=? uint64_max).

End Decimal.

(** * Properties of the compute service *)

Section ServerProofs.

Import proto Server.

Lemma uint64_max_value : uint64_max = 18446744073709551615.
Proof. reflexivity. Qed.

Lemma rem_nonzero (a b : Z) : b <> 0 -> rem a b = Returns (a mod b).
Proof.
  intros Hb. unfold rem.
  destruct (Z.eqb_spec b 0) as [E | _]; [contradiction | reflexivity].
Qed.

(** The two equations of the loop: it leaves with [a] when [b] is zero, and
    otherwise goes on from the pair [(b, a mod b)]. *)
Lemma loop_exit (fuel : nat) (a : Z) : loop (S fuel) a 0 = Returns a.
Proof. reflexivity. Qed.

Lemma loop_iter (fuel : nat) (a b : Z) :
  b <> 0 -> loop (S fuel) a b = loop fuel b (a mod b).
Proof.
  intros Hb. simpl.
  destruct (Z.eqb_spec b 0) as [E | _]; [contradiction | ].
  simpl. unfold rem.
  destruct (Z.eqb_spec b 0) as [E | _]; [contradiction | reflexivity].
Qed.

(** The divisor is zero at no evaluation of [%]: no amount of fuel makes
    the loop panic. *)
Lemma loop_never_panics (fuel : nat) :
  forall a b msg, loop fuel a b <> Panics msg.
Proof.
  induction fuel as [| fuel IH]; intros a b msg.
  - discriminate.
  - destruct (Z.eq_dec b 0) as [-> | Hb].
    + rewrite loop_exit. discriminate.
    + rewrite loop_iter by assumption. apply IH.
Qed.

(** Two iterations at least halve the second operand. *)
Lemma rem_rem_halves (a b : Z) :
  0 <= a -> 0 < b -> 0 < a mod b -> 2 * (b mod (a mod b)) < b.
Proof.
  intros Ha Hb Hr.
  pose proof (Z.mod_pos_bound a b Hb) as [_ Hlt].
  pose proof (Z.mod_pos_bound b (a mod b) Hr) as [Hge Hlt'].
  pose proof (Z.div_mod b (a mod b) ltac:(lia)) as Hdm.
  assert (Hq : 1 <= b / (a mod b)).
  { apply Z.div_le_lower_bound; lia. }
  nia.
Qed.

(** With [k] bits in the second operand, [2k+1] loop tests are enough, and
    the value left in [a] is the greatest common divisor. *)
Lemma loop_gcd_bits (k : nat) :
  forall fuel a b,
    0 <= a -> 0 <= b < 2 ^ Z.of_nat k -> (2 * k + 1 <= fuel)%nat ->
    loop fuel a b = Returns (Z.gcd a b).
Proof.
  induction k as [| k IH]; intros fuel a b Ha Hb Hfuel.
  - assert (b = 0) by (change (2 ^ Z.of_nat 0) with 1 in Hb; lia). subst b.
    destruct fuel as [| fuel]; [lia | ].
    rewrite loop_exit, Z.gcd_0_r, Z.abs_eq by assumption. reflexivity.
  - destruct fuel as [| [| [| fuel]]]; try lia.
    destruct (Z.eq_dec b 0) as [-> | Hb0].
    { rewrite loop_exit, Z.gcd_0_r, Z.abs_eq by assumption. reflexivity. }
    rewrite loop_iter by assumption.
    assert (Hg : Z.gcd a b = Z.gcd b (a mod b)).
    { rewrite (Z.gcd_comm b (a mod b)), Z.gcd_mod by assumption.
      apply Z.gcd_comm. }
    pose proof (Z.mod_pos_bound a b ltac:(lia)) as [Hr0 Hrb].
    destruct (Z.eq_dec (a mod b) 0) as [Er | Hr].
    { rewrite Er in *. rewrite loop_exit, Hg, Z.gcd_0_r, Z.abs_eq by lia.
      reflexivity. }
    rewrite loop_iter by assumption.
    assert (Hg' : Z.gcd b (a mod b) = Z.gcd (a mod b) (b mod (a mod b))).
    { rewrite (Z.gcd_comm (a mod b) (b mod (a mod b))), Z.gcd_mod by assumption.
      apply Z.gcd_comm. }
    rewrite Hg, Hg'.
    pose proof (rem_rem_halves a b Ha ltac:(lia) ltac:(lia)) as Hhalf.
    pose proof (Z.mod_pos_bound b (a mod b) ltac:(lia)) as [Hs0 _].
    apply IH; try lia.
    rewrite Nat2Z.inj_succ, Z.pow_succ_r in Hb by lia. lia.
Qed.

Lemma loop_gcd (fuel : nat) (a b : Z) :
  is_uint64 a -> is_uint64 b -> (fuel64 <= fuel)%nat ->
  loop fuel a b = Returns (Z.gcd a b).
Proof.
  intros [Ha _] [Hb0 Hb] Hfuel.
  apply (loop_gcd_bits 64); [assumption | | exact Hfuel].
  rewrite uint64_max_value in Hb.
  change (2 ^ Z.of_nat 64) with 18446744073709551616. lia.
Qed.

Lemma Computer_gcd (fuel : nat) (ctx : Context) (r : GCDRequest) :
  wf_request r -> (fuel64 <= fuel)%nat ->
  Computer fuel ctx r = Returns ({| Result := Z.gcd (A r) (B r) |}, None).
Proof.
  intros [Ha Hb] Hfuel. unfold Computer.
  rewrite loop_gcd by assumption. reflexivity.
Qed.

Lemma compute_gcd (fuel : nat) (a b : Z) :
  is_uint64 a -> is_uint64 b -> (fuel64 <= fuel)%nat ->
  compute fuel a b = Returns (Z.gcd a b).
Proof.
  intros Ha Hb Hfuel. unfold compute.
  rewrite Computer_gcd; [reflexivity | split; assumption | exact Hfuel].
Qed.

(** The greatest common divisor of two [uint64] values is a [uint64]. *)
Lemma gcd_uint64 (a b : Z) : is_uint64 a -> is_uint64 b -> is_uint64 (Z.gcd a b).
Proof.
  intros [Ha0 Ha] [Hb0 Hb]. split; [apply Z.gcd_nonneg | ].
  destruct (Z.eq_dec a 0) as [-> | Hne].
  - rewrite Z.gcd_0_l, Z.abs_eq by assumption. assumption.
  - apply Z.le_trans with a; [ | assumption].
    apply Z.divide_pos_le; [lia | apply Z.gcd_divide_l].
Qed.

End ServerProofs.

Section ServerClaims.

Import proto Server.

(** C1. For every request whose fields are unsigned 64-bit integers,
    [Computer] returns a result [R] with a nil error such that [R] is the
    greatest common divisor of [A] and [B]: [R] divides both; every common
    divisor divides [R]; unless [A] and [B] are both zero, [A mod R = 0],
    [B mod R = 0] and no common divisor is larger than [R]; [R = 0] only when
    [A = 0] and [B = 0]; and [gcd(x, 0) = x], [gcd(0, y) = y], so that
    [gcd(0, 0) = 0]. *)
Theorem Computer_returns_gcd (fuel : nat) (ctx : Context) (r : GCDRequest) :
  wf_request r -> (fuel64 <= fuel)%nat ->
  exists R : Z,
    Computer fuel ctx r = Returns ({| Result := R |}, None) /\
    is_uint64 R /\
    R = Z.gcd (A r) (B r) /\
    (R | A r) /\ (R | B r) /\
    (forall d, (d | A r) -> (d | B r) -> (d | R)) /\
    (~ (A r = 0 /\ B r = 0) ->
       A r mod R = 0 /\ B r mod R = 0 /\
       forall d, (d | A r) -> (d | B r) -> d <= R) /\
    (R = 0 -> A r = 0 /\ B r = 0) /\
    (B r = 0 -> R = A r) /\
    (A r = 0 -> R = B r).
Proof.
  intros Hwf Hfuel. exists (Z.gcd (A r) (B r)).
  destruct Hwf as [Ha Hb].
  pose proof (gcd_uint64 _ _ Ha Hb) as Hg.
  pose proof (Z.gcd_divide_l (A r) (B r)) as Hl.
  pose proof (Z.gcd_divide_r (A r) (B r)) as Hr.
  split; [apply Computer_gcd; [split; assumption | exact Hfuel] | ].
  split; [exact Hg | ].
  split; [reflexivity | ].
  split; [exact Hl | ].
  split; [exact Hr | ].
  split; [intros d; apply Z.gcd_greatest | ].
  split.
  { intros Hnz.
    assert (Hpos : 0 < Z.gcd (A r) (B r)).
    { destruct Hg as [Hg0 _].
      destruct (Z.eq_dec (Z.gcd (A r) (B r)) 0) as [E | Hne]; [ | lia].
      apply Z.gcd_eq_0 in E. contradiction. }
    split; [apply Z.mod_divide; [lia | exact Hl] | ].
    split; [apply Z.mod_divide; [lia | exact Hr] | ].
    intros d Hda Hdb. apply Z.divide_pos_le; [exact Hpos | ].
    apply Z.gcd_greatest; assumption. }
  split; [apply Z.gcd_eq_0 | ].
  destruct Ha as [Ha0 _], Hb as [Hb0 _].
  split; intros E; rewrite E.
  - rewrite Z.gcd_0_r. apply Z.abs_eq. exact Ha0.
  - rewrite Z.gcd_0_l. apply Z.abs_eq. exact Hb0.
Qed.

(** C2. The loop of [Computer] is total over pairs of unsigned 64-bit
    integers: it tests [b] first, leaves with [a] when [b] is zero and
    otherwise goes on from [(b, a mod b)]; no run evaluates [a % b] with
    [b = 0] (no run panics); and 129 loop tests are enough for every input,
    after which the loop has returned an unsigned 64-bit integer. *)
Theorem Computer_loop_total (a b : Z) :
  is_uint64 a -> is_uint64 b ->
  (forall fuel, loop (S fuel) a 0 = Returns a) /\
  (forall fuel, b <> 0 -> loop (S fuel) a b = loop fuel b (a mod b)) /\
  (forall fuel msg, loop fuel a b <> Panics msg) /\
  (forall fuel ctx msg, Computer fuel ctx {| A := a; B := b |} <> Panics msg) /\
  (forall fuel, (fuel64 <= fuel)%nat ->
     exists r, loop fuel a b = Returns r /\ is_uint64 r).
Proof.
  intros Ha Hb.
  split; [intros fuel; apply loop_exit | ].
  split; [intros fuel Hb0; apply loop_iter; exact Hb0 | ].
  split; [intros fuel msg; apply loop_never_panics | ].
  split.
  - intros fuel ctx msg. unfold Computer. simpl.
    pose proof (loop_never_panics fuel a b) as Hnp.
    destruct (loop fuel a b) as [r | msg' | ]; simpl; try discriminate.
    intros E. injection E as E. apply (Hnp msg'). reflexivity.
  - intros fuel Hfuel. exists (Z.gcd a b).
    split; [apply loop_gcd; assumption | apply gcd_uint64; assumption].
Qed.

(** C5. [Computer] never errors: for every request with [A] and [B] in the
    unsigned 64-bit domain it returns a response carrying a result, together
    with a nil error. *)
Theorem Computer_never_errors (fuel : nat) (ctx : Context) (r : GCDRequest) :
  wf_request r -> (fuel64 <= fuel)%nat ->
  exists res : GCDResponse,
    Computer fuel ctx r = Returns (res, None) /\ is_uint64 (Result res).
Proof.
  intros Hwf Hfuel. exists {| Result := Z.gcd (A r) (B r) |}.
  split; [apply Computer_gcd; assumption | ].
  destruct Hwf as [Ha Hb]. apply gcd_uint64; assumption.
Qed.

(** C6. For all unsigned 64-bit [a] and [b]: [compute(a, 0) = a],
    [compute(0, b) = b] and [compute(0, 0) = 0]. *)
Theorem compute_zero (fuel : nat) (a b : Z) :
  is_uint64 a -> is_uint64 b -> (fuel64 <= fuel)%nat ->
  compute fuel a 0 = Returns a /\
  compute fuel 0 b = Returns b /\
  compute fuel 0 0 = Returns 0.
Proof.
  intros Ha Hb Hfuel.
  assert (H0 : is_uint64 0) by (split; [lia | rewrite uint64_max_value; lia]).
  rewrite !compute_gcd by assumption.
  destruct Ha as [Ha _], Hb as [Hb _].
  repeat split; f_equal.
  - rewrite Z.gcd_0_r. apply Z.abs_eq. exact Ha.
  - rewrite Z.gcd_0_l. apply Z.abs_eq. exact Hb.
Qed.

(** C7. [compute] is commutative on unsigned 64-bit integers:
    [compute(a, b) = compute(b, a)], both being returned values. *)
Theorem compute_comm (fuel : nat) (a b : Z) :
  is_uint64 a -> is_uint64 b -> (fuel64 <= fuel)%nat ->
  compute fuel a b = compute fuel b a /\
  exists r, compute fuel a b = Returns r.
Proof.
  intros Ha Hb Hfuel.
  rewrite !compute_gcd by assumption.
  split; [f_equal; apply Z.gcd_comm | eexists; reflexivity].
Qed.

(** C8. For every unsigned 64-bit [a], [compute(a, a) = a]; consequently,
    for all [a] and [b], [compute(a, b)] returns some [r] with
    [compute(r, r) = r]. *)
Theorem compute_diag_idempotent (fuel : nat) (a b : Z) :
  is_uint64 a -> is_uint64 b -> (fuel64 <= fuel)%nat ->
  compute fuel a a = Returns a /\
  exists r, compute fuel a b = Returns r /\ compute fuel r r = Returns r.
Proof.
  intros Ha Hb Hfuel.
  assert (Hdiag : forall x, is_uint64 x -> compute fuel x x = Returns x).
  { intros x Hx. rewrite compute_gcd by assumption.
    rewrite Z.gcd_diag, Z.abs_eq by apply Hx. reflexivity. }
  split; [apply Hdiag; exact Ha | ].
  exists (Z.gcd a b).
  split; [apply compute_gcd; assumption | ].
  apply Hdiag. apply gcd_uint64; assumption.
Qed.

(** C9. The concrete scenarios: [compute(294, 462) = 42],
    [compute(0, 5) = 5], [compute(17, 5) = 1], [compute(48, 18) = 6] and
    [compute(0, 0) = 0], with any fuel from [fuel64] up. *)
Theorem compute_scenarios (n : nat) :
  compute (fuel64 + n) 294 462 = Returns 42 /\
  compute (fuel64 + n) 0 5 = Returns 5 /\
  compute (fuel64 + n) 17 5 = Returns 1 /\
  compute (fuel64 + n) 48 18 = Returns 6 /\
  compute (fuel64 + n) 0 0 = Returns 0.
Proof.
  assert (Hs : forall x, 0 <= x <= 1000 -> is_uint64 x).
  { intros x Hx. split; [lia | rewrite uint64_max_value; lia]. }
  rewrite !compute_gcd by first [apply Hs; lia | lia].
  repeat split; reflexivity.
Qed.

End ServerClaims.

(** * Properties of the parser and of the printer *)

Section StrconvProofs.

Import strconv Decimal.

Lemma byte_of_range (ch : ascii) : 0 <= byte_of ch < 256.
Proof.
  unfold byte_of. pose proof (N_ascii_bounded ch). lia.
Qed.

Lemma maxVal_value : maxVal = uint64_max.
Proof. reflexivity. Qed.

Lemma cutoff_value : cutoff = 1844674407370955162.
Proof. reflexivity. Qed.

Lemma digit_value_digit (ch : ascii) :
  is_digit ch = true ->
  digit_value (byte_of ch) = Some (byte_of ch - 48) /\ 0 <= byte_of ch - 48 <= 9.
Proof.
  unfold is_digit, digit_value. intros H. rewrite H.
  apply andb_true_iff in H. destruct H as [H1 H2].
  apply Z.leb_le in H1, H2. split; [reflexivity | lia].
Qed.

(** A byte that is no decimal digit is rejected: either it is no digit of
    any base, or its digit value is at least the base. *)
Lemma digit_value_other (ch : ascii) :
  is_digit ch = false ->
  digit_value (byte_of ch) = None \/
  exists d, digit_value (byte_of ch) = Some d /\ base <= d.
Proof.
  unfold is_digit, digit_value. intros H. rewrite H.
  destruct ((97 <=? lower (byte_of ch)) && (lower (byte_of ch) <=? 122)) eqn:E.
  - right. eexists. split; [reflexivity | ].
    apply andb_true_iff in E. destruct E as [E1 _]. apply Z.leb_le in E1.
    unfold base. lia.
  - left. reflexivity.
Qed.

Lemma value_from_ge (s : string) :
  forall acc, all_digits s = true -> 0 <= acc -> acc <= value_from s acc.
Proof.
  induction s as [| ch s IH]; intros acc Hd Hacc; simpl in *.
  - lia.
  - apply andb_true_iff in Hd. destruct Hd as [Hch Hs].
    destruct (digit_value_digit ch Hch) as [_ Hr].
    specialize (IH (acc * 10 + (byte_of ch - 48)) Hs ltac:(lia)). lia.
Qed.

(** One turn of the parsing loop on a decimal digit. *)
Lemma parse_loop_digit (ch : ascii) (s : string) (n : Z) :
  is_digit ch = true -> 0 <= n <= uint64_max ->
  let n' := n * 10 + (byte_of ch - 48) in
  (n' <= uint64_max -> parse_loop (String ch s) n = parse_loop s n') /\
  (uint64_max < n' -> parse_loop (String ch s) n = (maxVal, Some ErrRange)).
Proof.
  intros Hch Hn n'. subst n'.
  destruct (digit_value_digit ch Hch) as [Hdv Hd].
  simpl. rewrite Hdv. unfold base.
  rewrite Z.geb_leb.
  destruct (Z.leb_spec 10 (byte_of ch - 48)) as [Hbad | _]; [lia | ].
  rewrite Z.geb_leb, cutoff_value, maxVal_value.
  rewrite uint64_max_value in *.
  destruct (Z.leb_spec 1844674407370955162 n) as [Hcut | Hcut].
  { split; [lia | reflexivity]. }
  unfold wrap64. change (2 ^ 64) with 18446744073709551616.
  rewrite (Z.mod_small (n * 10)) by lia.
  rewrite Z.gtb_ltb.
  destruct (Z.le_gt_cases (n * 10 + (byte_of ch - 48)) 18446744073709551615)
    as [Hfit | Hover].
  - rewrite Z.mod_small by lia.
    destruct (Z.ltb_spec (n * 10 + (byte_of ch - 48)) (n * 10)) as [Hlt | _]; [lia | ].
    destruct (Z.ltb_spec 18446744073709551615 (n * 10 + (byte_of ch - 48)))
      as [Hgt | _]; [lia | ].
    simpl. split; [reflexivity | lia].
  - assert (Hw : (n * 10 + (byte_of ch - 48)) mod 18446744073709551616
                 = n * 10 + (byte_of ch - 48) - 18446744073709551616).
    { symmetry. apply Z.mod_unique with 1; lia. }
    rewrite Hw.
    destruct (Z.ltb_spec (n * 10 + (byte_of ch - 48) - 18446744073709551616) (n * 10))
      as [_ | Hge]; [ | lia].
    simpl. split; [lia | reflexivity].
Qed.

Lemma parse_loop_ok (s : string) :
  forall n, 0 <= n <= uint64_max ->
    all_digits s = true -> value_from s n <= uint64_max ->
    parse_loop s n = (value_from s n, None).
Proof.
  induction s as [| ch s IH]; intros n Hn Hd Hv.
  - reflexivity.
  - simpl in Hd, Hv. apply andb_true_iff in Hd. destruct Hd as [Hch Hs].
    destruct (digit_value_digit ch Hch) as [_ Hr].
    assert (Hge : n * 10 + (byte_of ch - 48)
                  <= value_from s (n * 10 + (byte_of ch - 48))).
    { apply value_from_ge; [exact Hs | lia]. }
    destruct (parse_loop_digit ch s n Hch Hn) as [Hstep _].
    rewrite Hstep by lia. simpl. apply IH; [lia | exact Hs | exact Hv].
Qed.

Lemma parse_loop_err (s : string) :
  forall n, 0 <= n <= uint64_max ->
    all_digits s = false \/ uint64_max < value_from s n ->
    exists v e, parse_loop s n = (v, Some e).
Proof.
  induction s as [| ch s IH]; intros n Hn Hbad.
  - simpl in Hbad. destruct Hbad as [Hbad | Hbad]; [discriminate | lia].
  - destruct (is_digit ch) eqn:Hch.
    + destruct (digit_value_digit ch Hch) as [_ Hr].
      destruct (parse_loop_digit ch s n Hch Hn) as [Hstep Hover].
      destruct (Z.le_gt_cases (n * 10 + (byte_of ch - 48)) uint64_max) as [Hfit | Hgt].
      * rewrite Hstep by exact Hfit. apply IH; [lia | ].
        simpl in Hbad. rewrite Hch in Hbad. exact Hbad.
      * rewrite Hover by lia. eauto.
    + simpl. destruct (digit_value_other ch Hch) as [E | [d [E Hd]]]; rewrite E.
      * eauto.
      * rewrite Z.geb_leb. destruct (Z.leb_spec base d) as [_ | Hlt]; [eauto | lia].
Qed.

(** [ParseUint] accepts exactly the unsigned 64-bit decimal integers, and
    returns their value. *)
Lemma ParseUint_literal (s : string) :
  is_uint64_literal s = true -> ParseUint s = (value s, None).
Proof.
  unfold is_uint64_literal. intros H.
  apply andb_true_iff in H. destruct H as [H Hv].
  apply andb_true_iff in H. destruct H as [Hne Hd].
  apply Z.leb_le in Hv.
  destruct s as [| ch s]; [discriminate | ].
  unfold ParseUint. apply parse_loop_ok; try assumption.
  rewrite uint64_max_value. lia.
Qed.

Lemma ParseUint_not_literal (s : string) :
  is_uint64_literal s = false -> exists v e, ParseUint s = (v, Some e).
Proof.
  unfold is_uint64_literal. intros H.
  destruct s as [| ch s]; [simpl; eauto | ].
  unfold ParseUint. apply parse_loop_err; [rewrite uint64_max_value; lia | ].
  change (negb (String.eqb (String ch s) "")) with true in H. simpl andb in H.
  apply andb_false_iff in H. destruct H as [H | H]; [left; exact H | right].
  apply Z.leb_gt in H. exact H.
Qed.

Lemma ParseUint_error_iff (s : string) :
  snd (ParseUint s) <> None <-> is_uint64_literal s = false.
Proof.
  destruct (is_uint64_literal s) eqn:E.
  - rewrite (ParseUint_literal s E). simpl. split; [congruence | discriminate].
  - destruct (ParseUint_not_literal s E) as [v [e H]]. rewrite H. simpl.
    split; [reflexivity | discriminate].
Qed.

End StrconvProofs.

Section FmtProofs.

Import strconv Decimal fmt.

Lemma byte_of_digit_char (d : Z) : 0 <= d <= 9 -> byte_of (digit_char d) = 48 + d.
Proof.
  intros Hd. unfold byte_of, digit_char.
  rewrite N_ascii_embedding by lia. lia.
Qed.

Lemma is_digit_digit_char (d : Z) : 0 <= d <= 9 -> is_digit (digit_char d) = true.
Proof.
  intros Hd. unfold is_digit. rewrite byte_of_digit_char by exact Hd.
  apply andb_true_iff. split; apply Z.leb_le; lia.
Qed.

Lemma append_String_assoc (s : string) (ch : ascii) (t : string) :
  ((s ++ String ch "") ++ t)%string = (s ++ String ch t)%string.
Proof.
  induction s as [| c s IH]; simpl; [reflexivity | rewrite IH; reflexivity].
Qed.

Lemma append_empty_r (s : string) : (s ++ "")%string = s.
Proof.
  induction s as [| c s IH]; simpl; [reflexivity | rewrite IH; reflexivity].
Qed.

Lemma all_digits_snoc (s : string) (ch : ascii) :
  all_digits s = true -> is_digit ch = true ->
  all_digits (s ++ String ch "") = true.
Proof.
  intros Hs Hch. induction s as [| c s IH]; simpl in *.
  - rewrite Hch. reflexivity.
  - apply andb_true_iff in Hs. destruct Hs as [Hc Hs].
    rewrite Hc, IH by exact Hs. reflexivity.
Qed.

Lemma value_from_snoc (s : string) (ch : ascii) :
  forall acc,
    value_from (s ++ String ch "") acc = value_from s acc * 10 + (byte_of ch - 48).
Proof.
  induction s as [| c s IH]; intros acc; simpl; [reflexivity | apply IH].
Qed.

(** With room for [S fuel] digits, the printing loop puts before the buffer
    a non-empty string of decimal digits whose value is [u]. *)
Lemma fmt_loop_digits (fuel : nat) :
  forall u buf, 0 <= u < 10 ^ Z.of_nat (S fuel) ->
    exists s, fmt_loop (S fuel) u buf = (s ++ buf)%string /\
              s <> "" /\ all_digits s = true /\ value s = u.
Proof.
  induction fuel as [| fuel IH]; intros u buf Hu.
  - change (10 ^ Z.of_nat 1) with 10 in Hu.
    exists (String (digit_char u) ""). simpl.
    rewrite Z.geb_leb. destruct (Z.leb_spec 10 u) as [Hbad | _]; [lia | ].
    split; [reflexivity | ]. split; [discriminate | ].
    rewrite is_digit_digit_char by lia. split; [reflexivity | ].
    unfold value. simpl. rewrite byte_of_digit_char by lia. lia.
  - change (fmt_loop (S (S fuel)) u buf) with
      (if u >=? 10
       then fmt_loop (S fuel) (u / 10) (String (digit_char (u - u / 10 * 10)) buf)
       else String (digit_char u) buf).
    rewrite Z.geb_leb. destruct (Z.leb_spec 10 u) as [Hbig | Hsmall].
    + assert (Hq : 0 <= u / 10 < 10 ^ Z.of_nat (S fuel)).
      { rewrite (Nat2Z.inj_succ (S fuel)), Z.pow_succ_r in Hu by lia.
        split; [apply Z.div_pos; lia | apply Z.div_lt_upper_bound; lia]. }
      assert (Hd : 0 <= u - u / 10 * 10 <= 9).
      { pose proof (Z.div_mod u 10 ltac:(lia)) as Hdm.
        pose proof (Z.mod_pos_bound u 10 ltac:(lia)). lia. }
      destruct (IH (u / 10) (String (digit_char (u - u / 10 * 10)) buf) Hq)
        as [s [Hs [Hne [Hall Hval]]]].
      exists (s ++ String (digit_char (u - u / 10 * 10)) "")%string.
      split; [rewrite Hs; symmetry; apply append_String_assoc | ].
      split; [destruct s; [contradiction | discriminate] | ].
      split; [apply all_digits_snoc; [exact Hall | apply is_digit_digit_char; exact Hd] | ].
      unfold value in *. rewrite value_from_snoc, Hval, byte_of_digit_char by exact Hd.
      lia.
    + exists (String (digit_char u) "").
      split; [reflexivity | ]. split; [discriminate | ].
      simpl. rewrite is_digit_digit_char by lia. split; [reflexivity | ].
      unfold value. simpl. rewrite byte_of_digit_char by lia. lia.
Qed.

(** [Sprint] of a [uint64] is its decimal notation. *)
Lemma Sprint_literal (u : Z) :
  is_uint64 u -> is_uint64_literal (Sprint u) = true /\ value (Sprint u) = u.
Proof.
  intros [Hu0 Hu]. unfold Sprint.
  destruct (fmt_loop_digits 19 u "") as [s [Hs [Hne [Hall Hval]]]].
  { rewrite uint64_max_value in Hu.
    change (10 ^ Z.of_nat 20) with 100000000000000000000. lia. }
  rewrite Hs, append_empty_r. split; [ | exact Hval].
  unfold is_uint64_literal. rewrite Hall, Hval.
  destruct s as [| c s]; [contradiction | ]. simpl.
  apply Z.leb_le. exact Hu.
Qed.

Lemma ParseUint_Sprint (u : Z) :
  is_uint64 u -> ParseUint (Sprint u) = (u, None).
Proof.
  intros Hu. destruct (Sprint_literal u Hu) as [Hlit Hval].
  rewrite (ParseUint_literal _ Hlit), Hval. reflexivity.
Qed.

End FmtProofs.

(** * Properties of the gateway *)

Section ApiClaims.

Import proto Api.

(** C3, as the code has it. When both parameters parse and the call to the
    compute service fails with an error of message [msg], the gateway sends
    the request once and answers with status 500 Internal Server Error, a
    server error, whose body carries [msg] under the key ["error"]. *)
Theorem handler_rpc_failure (gcdClient : GCDServiceClient) (c : Context)
    (a b : Z) (msg : string) :
  strconv.ParseUint (Param c "a") = (a, None) ->
  strconv.ParseUint (Param c "b") = (b, None) ->
  gcdClient {| A := a; B := b |} = inr msg ->
  response (handler gcdClient c) =
    {| code := StatusInternalServerError; obj := [("error", VString msg)] |} /\
  500 <= code (response (handler gcdClient c)) <= 599 /\
  calls (handler gcdClient c) = [ {| A := a; B := b |} ].
Proof.
  intros Ha Hb Hrpc. unfold handler. rewrite Ha, Hb, Hrpc. simpl.
  repeat split; discriminate.
Qed.

(** C3, as stated, fails: with both parameters well-formed and a compute
    service that cannot be reached, the status of the response is 500 and
    not 503 Service Unavailable. *)
Lemma handler_rpc_failure_not_unavailable :
  let gcdClient := unreachable_client "rpc error: code = Unavailable" in
  let c := route "294" "462" in
  strconv.ParseUint (Param c "a") = (294, None) /\
  strconv.ParseUint (Param c "b") = (462, None) /\
  gcdClient {| A := 294; B := 462 |} = inr "rpc error: code = Unavailable" /\
  code (response (handler gcdClient c)) = StatusInternalServerError /\
  code (response (handler gcdClient c)) <> StatusServiceUnavailable.
Proof.
  repeat split; discriminate.
Qed.

(** C4. Whenever parameter [a] or parameter [b] is not an unsigned 64-bit
    decimal integer (it is empty, holds a byte that is no decimal digit, such
    as a sign, or its value exceeds [2^64-1]), [ParseUint] reports an error
    for it, the gateway answers with status 400 Bad Request, and it sends no
    request to the compute service. *)
Theorem handler_rejects_malformed (gcdClient : GCDServiceClient) (c : Context) :
  Decimal.is_uint64_literal (Param c "a") = false \/
  Decimal.is_uint64_literal (Param c "b") = false ->
  (snd (strconv.ParseUint (Param c "a")) <> None \/
   snd (strconv.ParseUint (Param c "b")) <> None) /\
  code (response (handler gcdClient c)) = StatusBadRequest /\
  (exists msg, obj (response (handler gcdClient c)) = [("error", VString msg)]) /\
  calls (handler gcdClient c) = [].
Proof.
  intros Hbad. unfold handler.
  destruct (Decimal.is_uint64_literal (Param c "a")) eqn:Ea.
  - destruct Hbad as [Hbad | Hbad]; [discriminate | ].
    rewrite (ParseUint_literal _ Ea).
    destruct (ParseUint_not_literal _ Hbad) as [v [e Hb]]. rewrite Hb. simpl.
    split; [right; discriminate | ].
    split; [reflexivity | ]. split; [eexists; reflexivity | reflexivity].
  - destruct (ParseUint_not_literal _ Ea) as [v [e Ha]]. rewrite Ha. simpl.
    split; [left; discriminate | ].
    split; [reflexivity | ]. split; [eexists; reflexivity | reflexivity].
Qed.

(** C10. When both parameters parse and the compute service answers, the
    gateway responds with status 200 and a body whose only key, ["result"],
    holds a string and not a number: the [fmt.Sprint] of the result, which
    for an unsigned 64-bit result is its decimal notation (a non-empty string
    of decimal digits that [ParseUint] reads back as the result). *)
Theorem handler_success_result_string (gcdClient : GCDServiceClient)
    (c : Context) (a b : Z) (res : GCDResponse) :
  strconv.ParseUint (Param c "a") = (a, None) ->
  strconv.ParseUint (Param c "b") = (b, None) ->
  gcdClient {| A := a; B := b |} = inl res ->
  response (handler gcdClient c) =
    {| code := StatusOK;
       obj := [("result", VString (fmt.Sprint (Result res)))] |} /\
  (forall n, obj (response (handler gcdClient c)) <> [("result", VUint64 n)]) /\
  (is_uint64 (Result res) ->
     Decimal.is_uint64_literal (fmt.Sprint (Result res)) = true /\
     Decimal.value (fmt.Sprint (Result res)) = Result res /\
     strconv.ParseUint (fmt.Sprint (Result res)) = (Result res, None)).
Proof.
  intros Ha Hb Hrpc. unfold handler. rewrite Ha, Hb, Hrpc. simpl.
  split; [reflexivity | ]. split; [intros n; discriminate | ].
  intros Hres. destruct (Sprint_literal _ Hres) as [Hlit Hval].
  split; [exact Hlit | ]. split; [exact Hval | ].
  apply ParseUint_Sprint. exact Hres.
Qed.

End ApiClaims.

(** * The two services together, and the theorems at concrete inputs *)

Section EndToEnd.

Import proto Api.

(** With a transport that loses nothing, the gateway answers two well-formed
    parameters with the decimal notation of their greatest common divisor. *)
Lemma handler_local_client (fuel : nat) (c : Context) :
  Decimal.is_uint64_literal (Param c "a") = true ->
  Decimal.is_uint64_literal (Param c "b") = true ->
  (Server.fuel64 <= fuel)%nat ->
  response (handler (local_client fuel) c) =
    {| code := StatusOK;
       obj := [("result",
                VString (fmt.Sprint (Z.gcd (Decimal.value (Param c "a"))
                                           (Decimal.value (Param c "b")))))] |}.
Proof.
  intros Ha Hb Hfuel. unfold handler, local_client.
  rewrite (ParseUint_literal _ Ha), (ParseUint_literal _ Hb).
  assert (Hwf : wf_request {| A := Decimal.value (Param c "a");
                              B := Decimal.value (Param c "b") |}).
  { unfold Decimal.is_uint64_literal in Ha, Hb.
    apply andb_true_iff in Ha, Hb. destruct Ha as [Ha Hav], Hb as [Hb Hbv].
    apply andb_true_iff in Ha, Hb. destruct Ha as [_ Had], Hb as [_ Hbd].
    apply Z.leb_le in Hav, Hbv.
    split; (split; [ | assumption]); simpl;
      apply (value_from_ge _ 0); (assumption || lia). }
  rewrite (Computer_gcd fuel tt _ Hwf Hfuel). reflexivity.
Qed.

Example curl_gcd_294_462 :
  response (handler (local_client Server.fuel64) (route "294" "462")) =
    {| code := 200; obj := [("result", VString "42")] |}.
Proof. vm_compute. reflexivity. Qed.

End EndToEnd.

Section Witnesses.

Import proto Server Api.

Lemma uint64_small (x : Z) : 0 <= x <= 1000 -> is_uint64 x.
Proof.
  intros Hx. split; [lia | rewrite uint64_max_value; lia].
Qed.

Lemma Computer_returns_gcd_witness :
  exists R : Z,
    Computer fuel64 tt {| A := 294; B := 462 |} = Returns ({| Result := R |}, None) /\
    R = 42.
Proof.
  destruct (Computer_returns_gcd fuel64 tt {| A := 294; B := 462 |})
    as [R [HC [_ [HR _]]]].
  - split; apply uint64_small; simpl; lia.
  - apply le_n.
  - exists R. split; [exact HC | rewrite HR; reflexivity].
Defined.

Lemma Computer_loop_total_witness :
  exists r, loop fuel64 294 462 = Returns r /\ is_uint64 r.
Proof.
  destruct (Computer_loop_total 294 462) as [_ [_ [_ [_ H]]]].
  - apply uint64_small; lia.
  - apply uint64_small; lia.
  - apply (H fuel64). apply le_n.
Defined.

Lemma Computer_never_errors_witness :
  exists res : GCDResponse,
    Computer fuel64 tt {| A := 17; B := 5 |} = Returns (res, None) /\
    is_uint64 (Result res).
Proof.
  apply (Computer_never_errors fuel64 tt {| A := 17; B := 5 |}).
  - split; apply uint64_small; simpl; lia.
  - apply le_n.
Defined.

Lemma compute_zero_witness :
  compute fuel64 7 0 = Returns 7 /\
  compute fuel64 0 5 = Returns 5 /\
  compute fuel64 0 0 = Returns 0.
Proof.
  apply (compute_zero fuel64 7 5).
  - apply uint64_small; lia.
  - apply uint64_small; lia.
  - apply le_n.
Defined.

Lemma compute_comm_witness :
  compute fuel64 48 18 = compute fuel64 18 48 /\
  exists r, compute fuel64 48 18 = Returns r.
Proof.
  apply (compute_comm fuel64 48 18).
  - apply uint64_small; lia.
  - apply uint64_small; lia.
  - apply le_n.
Defined.

Lemma compute_diag_idempotent_witness :
  compute fuel64 12 12 = Returns 12 /\
  exists r, compute fuel64 12 18 = Returns r /\ compute fuel64 r r = Returns r.
Proof.
  apply (compute_diag_idempotent fuel64 12 18).
  - apply uint64_small; lia.
  - apply uint64_small; lia.
  - apply le_n.
Defined.

Lemma handler_rpc_failure_witness :
  response (handler (unreachable_client "connection refused") (route "294" "462")) =
    {| code := 500; obj := [("error", VString "connection refused")] |}.
Proof.
  apply (handler_rpc_failure (unreachable_client "connection refused")
           (route "294" "462") 294 462 "connection refused");
    reflexivity.
Defined.

Lemma handler_rejects_malformed_witness :
  code (response (handler (local_client fuel64) (route "-1" "462"))) = 400 /\
  calls (handler (local_client fuel64) (route "-1" "462")) = [].
Proof.
  destruct (handler_rejects_malformed (local_client fuel64) (route "-1" "462"))
    as [_ [Hcode [_ Hcalls]]].
  - left. reflexivity.
  - split; [exact Hcode | exact Hcalls].
Defined.

Lemma handler_success_result_string_witness :
  response (handler (local_client fuel64) (route "294" "462")) =
    {| code := 200; obj := [("result", VString (fmt.Sprint 42))] |}.
Proof.
  apply (handler_success_result_string (local_client fuel64) (route "294" "462")
           294 462 {| Result := 42 |});
    reflexivity.
Defined.

End Witnesses.

Section Examples.

Import strconv.

(** The three kinds of malformed parameter, and the two ends of the range. *)
Example malformed_parameters :
  ParseUint "abc" = (0, Some ErrSyntax) /\
  ParseUint "-1" = (0, Some ErrSyntax) /\
  ParseUint "+1" = (0, Some ErrSyntax) /\
  ParseUint "" = (0, Some ErrSyntax) /\
  ParseUint "18446744073709551616" = (uint64_max, Some ErrRange) /\
  ParseUint "18446744073709551615" = (uint64_max, None) /\
  ParseUint "0" = (0, None).
Proof. vm_compute. repeat split; reflexivity. Qed.

Example Sprint_examples :
  fmt.Sprint 0 = "0" /\ fmt.Sprint 42 = "42" /\
  fmt.Sprint uint64_max = "18446744073709551615".
Proof. vm_compute. repeat split; reflexivity. Qed.

End Examples.

(** * Further properties of the compute service *)

Section ServerExtras.

Import proto Server Trace.

Lemma fib_SS (n : nat) : fib (S (S n)) = fib n + fib (S n).
Proof.
  unfold fib. simpl. destruct (fib_pair n) as [x y]. reflexivity.
Qed.

Lemma fib_94 : uint64_max < fib (91 + 3).
Proof. vm_compute. reflexivity. Qed.

Lemma gcd_rem (a b : Z) : b <> 0 -> Z.gcd b (a mod b) = Z.gcd a b.
Proof.
  intros Hb. rewrite (Z.gcd_comm b (a mod b)), Z.gcd_mod by assumption.
  apply Z.gcd_comm.
Qed.

(** Lame's bound, on the loop: from a pair with [b < a], [n + 1] loop tests
    are enough as soon as [b < fib (n + 2)] or [a < fib (n + 3)]. *)
Lemma loop_fib (n : nat) :
  forall a b fuel,
    0 <= b < a -> b < fib (n + 2) \/ a < fib (n + 3) -> (n + 1 <= fuel)%nat ->
    loop fuel a b = Returns (Z.gcd a b).
Proof.
  induction n as [| n IH]; intros a b fuel Hab Hfib Hfuel.
  - assert (b = 0).
    { change (fib (0 + 2)) with 1 in Hfib. change (fib (0 + 3)) with 2 in Hfib. lia. }
    subst b. destruct fuel as [| fuel]; [lia | ].
    rewrite loop_exit, Z.gcd_0_r, Z.abs_eq by lia. reflexivity.
  - destruct fuel as [| fuel]; [lia | ].
    destruct (Z.eq_dec b 0) as [-> | Hb].
    { rewrite loop_exit, Z.gcd_0_r, Z.abs_eq by lia. reflexivity. }
    rewrite loop_iter by assumption. rewrite <- (gcd_rem a b Hb).
    pose proof (Z.mod_pos_bound a b ltac:(lia)) as Hr.
    apply IH; [exact Hr | | lia].
    replace (S n + 2)%nat with (S (n + 2)) in Hfib by lia.
    replace (S n + 3)%nat with (S (S (n + 2))) in Hfib by lia.
    rewrite fib_SS in Hfib.
    replace (n + 3)%nat with (S (n + 2)) by lia.
    destruct (Z.lt_ge_cases b (fib (S (n + 2)))) as [Hlt | Hge]; [right; exact Hlt | left].
    destruct Hfib as [Hfib | Hfib]; [lia | ].
    pose proof (Z.div_mod a b Hb) as Hdm.
    assert (Hq : 1 <= a / b) by (apply Z.div_le_lower_bound; lia).
    nia.
Qed.

Lemma loop_tests64 (fuel : nat) (a b : Z) :
  is_uint64 a -> is_uint64 b -> (tests64 <= fuel)%nat ->
  loop fuel a b = Returns (Z.gcd a b).
Proof.
  intros [Ha0 Ha] [Hb0 Hb] Hfuel. unfold tests64 in Hfuel.
  pose proof fib_94 as Hfib.
  destruct (Z.lt_trichotomy b a) as [Hlt | [Heq | Hgt]].
  - apply (loop_fib 91); [lia | right; lia | lia].
  - subst b. destruct fuel as [| [| fuel]]; try lia.
    destruct (Z.eq_dec a 0) as [-> | Hne]; [reflexivity | ].
    rewrite loop_iter, Z.mod_same, loop_exit, Z.gcd_diag, Z.abs_eq by lia.
    reflexivity.
  - destruct fuel as [| fuel]; [lia | ].
    rewrite loop_iter, Z.mod_small, Z.gcd_comm by lia.
    apply (loop_fib 91); [lia | right; lia | lia].
Qed.

(** A run that returns has tested the condition at most [fuel] times. *)
Lemma loop_states_length (fuel : nat) :
  forall a b r, loop fuel a b = Returns r ->
    forall n, (List.length (states n a b) <= fuel)%nat.
Proof.
  induction fuel as [| fuel IH]; intros a b r Hrun n; [discriminate | ].
  destruct n as [| n]; simpl; [lia | ].
  destruct (Z.eq_dec b 0) as [-> | Hb].
  - simpl. lia.
  - rewrite loop_iter in Hrun by assumption.
    destruct (Z.eqb_spec b 0) as [E | _]; [contradiction | ]. simpl.
    specialize (IH _ _ _ Hrun n). lia.
Qed.

(** The loop returns [r] exactly when its run ends in the state [(r, 0)]. *)
Lemma loop_returns_iff_state (fuel : nat) :
  forall a b r, loop fuel a b = Returns r <-> In (r, 0) (states fuel a b).
Proof.
  induction fuel as [| fuel IH]; intros a b r.
  - simpl. split; [discriminate | contradiction].
  - destruct (Z.eq_dec b 0) as [-> | Hb].
    + rewrite loop_exit. simpl. split.
      * intros E. injection E as ->. left. reflexivity.
      * intros [E | []]. injection E as ->. reflexivity.
    + rewrite loop_iter by assumption. simpl.
      destruct (Z.eqb_spec b 0) as [E | _]; [contradiction | ]. simpl.
      rewrite IH. split; [intros H; right; exact H | ].
      intros [E | H]; [ | exact H]. injection E as _ E. contradiction.
Qed.

(** The worst case of 64-bit operands: two consecutive Fibonacci numbers,
    the smaller first, need all of the 93 loop tests. *)
Lemma loop_tests64_attained :
  is_uint64 (fib 92) /\ is_uint64 (fib 93) /\
  loop 92 (fib 92) (fib 93) = OutOfFuel /\
  loop tests64 (fib 92) (fib 93) = Returns 1.
Proof.
  vm_compute. repeat split; discriminate.
Qed.

(** X1. For every request with 64-bit fields, [Computer] returns after at
    most 93 evaluations of the loop condition (at most 92 remainders): 93
    units of fuel give the result, and no run has more than 93 states. *)
Theorem Computer_tests_bound (fuel : nat) (ctx : Context) (r : GCDRequest) :
  wf_request r -> (tests64 <= fuel)%nat ->
  Computer fuel ctx r = Returns ({| Result := Z.gcd (A r) (B r) |}, None) /\
  forall n, (List.length (states n (A r) (B r)) <= tests64)%nat.
Proof.
  intros [Ha Hb] Hfuel. split.
  - unfold Computer. rewrite loop_tests64 by assumption. reflexivity.
  - apply (loop_states_length tests64 _ _ (Z.gcd (A r) (B r))).
    apply loop_tests64; [assumption | assumption | apply le_n].
Qed.

(** X2. The loop keeps its invariants at every test of its condition: the
    greatest common divisor of the current pair is that of the operands, and
    both variables stay between 0 and the larger operand, so that nothing
    can overflow. *)
Theorem states_invariant (fuel : nat) (a b : Z) :
  0 <= a -> 0 <= b ->
  Forall (fun s => Z.gcd (fst s) (snd s) = Z.gcd a b /\
                   0 <= fst s <= Z.max a b /\ 0 <= snd s <= Z.max a b)
         (states fuel a b).
Proof.
  revert a b. induction fuel as [| fuel IH]; intros a b Ha Hb; simpl.
  - constructor.
  - constructor; [simpl; repeat split; lia | ].
    destruct (Z.eqb_spec b 0) as [E | Hne]; simpl; [constructor | ].
    pose proof (Z.mod_pos_bound a b ltac:(lia)) as Hr.
    specialize (IH b (a mod b) Hb ltac:(lia)).
    apply (Forall_impl _ (P := fun s =>
             Z.gcd (fst s) (snd s) = Z.gcd b (a mod b) /\
             0 <= fst s <= Z.max b (a mod b) /\
             0 <= snd s <= Z.max b (a mod b))); [ | exact IH].
    intros [x y] [Hg [Hx Hy]]. simpl in *.
    rewrite (gcd_rem a b Hne) in Hg. repeat split; (exact Hg || lia).
Qed.

(** X3. Whatever the size of the operands and the fuel, a run of the loop
    that returns, returns the greatest common divisor: the result does not
    depend on the width of the integer type. *)
Theorem loop_returns_gcd (fuel : nat) (a b r : Z) :
  0 <= a -> 0 <= b -> loop fuel a b = Returns r -> r = Z.gcd a b.
Proof.
  revert a b. induction fuel as [| fuel IH]; intros a b Ha Hb Hrun; [discriminate | ].
  destruct (Z.eq_dec b 0) as [-> | Hne].
  - rewrite loop_exit in Hrun. injection Hrun as <-.
    rewrite Z.gcd_0_r, Z.abs_eq by exact Ha. reflexivity.
  - rewrite loop_iter in Hrun by assumption.
    pose proof (Z.mod_pos_bound a b ltac:(lia)) as Hr.
    rewrite <- (gcd_rem a b Hne). apply IH; [exact Hb | lia | exact Hrun].
Qed.

End ServerExtras.

Section ComputeAlgebra.

Import proto Server.

(** X4. [compute] is associative on unsigned 64-bit integers: folding it
    over three operands gives the same result in either grouping. *)
Theorem compute_assoc (fuel : nat) (a b c : Z) :
  is_uint64 a -> is_uint64 b -> is_uint64 c -> (fuel64 <= fuel)%nat ->
  exists x y r,
    compute fuel a b = Returns x /\ compute fuel x c = Returns r /\
    compute fuel b c = Returns y /\ compute fuel a y = Returns r.
Proof.
  intros Ha Hb Hc Hfuel.
  exists (Z.gcd a b), (Z.gcd b c), (Z.gcd (Z.gcd a b) c).
  pose proof (gcd_uint64 a b Ha Hb) as Hab.
  pose proof (gcd_uint64 b c Hb Hc) as Hbc.
  rewrite !compute_gcd by assumption.
  rewrite Z.gcd_assoc. repeat split; reflexivity.
Qed.

(** X5. [compute] scales: when [k * a] and [k * b] still fit in 64 bits,
    [compute(k * a, k * b) = k * compute(a, b)]. *)
Theorem compute_scale (fuel : nat) (k a b : Z) :
  0 <= k -> is_uint64 a -> is_uint64 b ->
  is_uint64 (k * a) -> is_uint64 (k * b) -> (fuel64 <= fuel)%nat ->
  exists r, compute fuel a b = Returns r /\
            compute fuel (k * a) (k * b) = Returns (k * r).
Proof.
  intros Hk Ha Hb Hka Hkb Hfuel. exists (Z.gcd a b).
  rewrite !compute_gcd by assumption.
  rewrite Z.gcd_mul_mono_l_nonneg by exact Hk. split; reflexivity.
Qed.

(** X6. When [b] is not zero and divides [a], [compute(a, b)] and
    [compute(b, a)] are both [b]. *)
Theorem compute_divisor (fuel : nat) (a b : Z) :
  is_uint64 a -> is_uint64 b -> b <> 0 -> a mod b = 0 ->
  (fuel64 <= fuel)%nat ->
  compute fuel a b = Returns b /\ compute fuel b a = Returns b.
Proof.
  intros Ha Hb Hne Hmod Hfuel.
  rewrite !compute_gcd by assumption.
  assert (Hg : Z.gcd b a = b).
  { apply Z.divide_gcd_iff; [apply Hb | ].
    apply Z.mod_divide; assumption. }
  rewrite (Z.gcd_comm a b), Hg. split; reflexivity.
Qed.

(** X7. Unless both operands are zero, the result of [compute] is at least 1
    and at most each operand that is not zero. *)
Theorem compute_bounds (fuel : nat) (a b : Z) :
  is_uint64 a -> is_uint64 b -> ~ (a = 0 /\ b = 0) -> (fuel64 <= fuel)%nat ->
  exists r, compute fuel a b = Returns r /\
            1 <= r /\ (a <> 0 -> r <= a) /\ (b <> 0 -> r <= b).
Proof.
  intros Ha Hb Hnz Hfuel. exists (Z.gcd a b).
  split; [apply compute_gcd; assumption | ].
  pose proof (Z.gcd_nonneg a b) as Hg0.
  assert (Hg : Z.gcd a b <> 0).
  { intros E. apply Z.gcd_eq_0 in E. contradiction. }
  destruct Ha as [Ha _], Hb as [Hb _].
  split; [lia | ].
  split; intros Hne; (apply Z.divide_pos_le; [lia | ]).
  - apply Z.gcd_divide_l.
  - apply Z.gcd_divide_r.
Qed.

End ComputeAlgebra.

(** * Further properties of the gateway *)

Section ApiExtras.

Import proto Api.

Lemma literal_value_uint64 (s : string) :
  Decimal.is_uint64_literal s = true -> is_uint64 (Decimal.value s).
Proof.
  unfold Decimal.is_uint64_literal. intros H.
  apply andb_true_iff in H. destruct H as [H Hv].
  apply andb_true_iff in H. destruct H as [_ Hd].
  apply Z.leb_le in Hv. split; [ | exact Hv].
  apply (value_from_ge s 0 Hd). lia.
Qed.

(** Through a transport that loses nothing, the compute service answers
    every well-formed request. *)
Lemma local_client_gcd (fuel : nat) (req : GCDRequest) :
  wf_request req -> (Server.fuel64 <= fuel)%nat ->
  local_client fuel req = inl {| Result := Z.gcd (A req) (B req) |}.
Proof.
  intros Hwf Hfuel. unfold local_client.
  rewrite (Computer_gcd fuel tt req Hwf Hfuel). reflexivity.
Qed.

(** The request the handler builds from two well-formed parameters. *)
Lemma handler_parsed (gcdClient : GCDServiceClient) (c : Context) :
  Decimal.is_uint64_literal (Param c "a") = true ->
  Decimal.is_uint64_literal (Param c "b") = true ->
  handler gcdClient c =
    let req := {| A := Decimal.value (Param c "a");
                  B := Decimal.value (Param c "b") |} in
    match gcdClient req with
    | inl res =>
        {| response := {| code := StatusOK;
                          obj := [("result", VString (fmt.Sprint (Result res)))] |};
           calls := [req] |}
    | inr msg =>
        {| response := {| code := StatusInternalServerError;
                          obj := [("error", VString msg)] |};
           calls := [req] |}
    end.
Proof.
  intros Ha Hb. unfold handler.
  rewrite (ParseUint_literal _ Ha), (ParseUint_literal _ Hb). reflexivity.
Qed.

Lemma handler_unparsed (gcdClient : GCDServiceClient) (c : Context) :
  Decimal.is_uint64_literal (Param c "a") = false \/
  Decimal.is_uint64_literal (Param c "b") = false ->
  handler gcdClient c =
    {| response :=
         {| code := StatusBadRequest;
            obj := [("error",
                     VString (if Decimal.is_uint64_literal (Param c "a")
                              then "Invalid parameter B"
                              else "Invalid parameter A"))] |};
       calls := [] |}.
Proof.
  intros Hbad. unfold handler.
  destruct (Decimal.is_uint64_literal (Param c "a")) eqn:Ea.
  - destruct Hbad as [Hbad | Hbad]; [discriminate | ].
    rewrite (ParseUint_literal _ Ea).
    destruct (ParseUint_not_literal _ Hbad) as [v [e Hb]]. rewrite Hb.
    reflexivity.
  - destruct (ParseUint_not_literal _ Ea) as [v [e Ha]]. rewrite Ha.
    reflexivity.
Qed.

(** X8. Parameter [a] is validated before parameter [b]: when either is
    malformed the whole run of the handler is fixed, whatever the compute
    service would do; the message names [A] when [a] is malformed (even if
    [b] is malformed too) and [B] only when [a] is well-formed; the kind of
    parse error (syntax or range) does not show. *)
Theorem handler_validation_order (gcdClient : GCDServiceClient) (c : Context) :
  Decimal.is_uint64_literal (Param c "a") = false \/
  Decimal.is_uint64_literal (Param c "b") = false ->
  handler gcdClient c =
    {| response :=
         {| code := StatusBadRequest;
            obj := [("error",
                     VString (if Decimal.is_uint64_literal (Param c "a")
                              then "Invalid parameter B"
                              else "Invalid parameter A"))] |};
       calls := [] |}.
Proof.
  apply handler_unparsed.
Qed.

(** X9. The handler calls the compute service at most once: exactly once,
    with the decimal values of the two parameters as [A] and [B], when both
    are well-formed, whether the call then succeeds or fails, and not at all
    otherwise. *)
Theorem handler_calls (gcdClient : GCDServiceClient) (c : Context) :
  calls (handler gcdClient c) =
    if Decimal.is_uint64_literal (Param c "a")
       && Decimal.is_uint64_literal (Param c "b")
    then [ {| A := Decimal.value (Param c "a");
              B := Decimal.value (Param c "b") |} ]
    else [].
Proof.
  destruct (Decimal.is_uint64_literal (Param c "a")) eqn:Ea;
    destruct (Decimal.is_uint64_literal (Param c "b")) eqn:Eb; simpl.
  - rewrite (handler_parsed gcdClient c Ea Eb). simpl.
    destruct (gcdClient _); reflexivity.
  - rewrite handler_unparsed by (right; exact Eb). reflexivity.
  - rewrite handler_unparsed by (left; exact Ea). reflexivity.
  - rewrite handler_unparsed by (left; exact Ea). reflexivity.
Qed.

(** X10. The status of every response is 200, 400 or 500: 400 exactly when
    a parameter is malformed, 200 exactly when both are well-formed and the
    compute service answers, 500 exactly when both are well-formed and the
    call fails. *)
Theorem handler_status_cases (gcdClient : GCDServiceClient) (c : Context) :
  let st := code (response (handler gcdClient c)) in
  let ok := Decimal.is_uint64_literal (Param c "a")
            && Decimal.is_uint64_literal (Param c "b") in
  let req := {| A := Decimal.value (Param c "a");
                B := Decimal.value (Param c "b") |} in
  (st = StatusOK \/ st = StatusBadRequest \/ st = StatusInternalServerError) /\
  (st = StatusBadRequest <-> ok = false) /\
  (st = StatusOK <-> ok = true /\ exists res, gcdClient req = inl res) /\
  (st = StatusInternalServerError <->
     ok = true /\ exists msg, gcdClient req = inr msg).
Proof.
  simpl.
  destruct (Decimal.is_uint64_literal (Param c "a")) eqn:Ea;
    destruct (Decimal.is_uint64_literal (Param c "b")) eqn:Eb; simpl;
    try (rewrite handler_unparsed by (first [left; exact Ea | right; exact Eb]);
         simpl; repeat split;
         try (right; left; reflexivity); try reflexivity;
         try discriminate; intros [? _]; discriminate).
  rewrite (handler_parsed gcdClient c Ea Eb). simpl.
  destruct (gcdClient _) as [res | msg]; simpl.
  - split; [left; reflexivity | ].
    split; [split; discriminate | ].
    split; [split; [intros _; split; [reflexivity | eexists; reflexivity]
                   | reflexivity] | ].
    split; [discriminate | intros [_ [m Hm]]; discriminate].
  - split; [right; right; reflexivity | ].
    split; [split; discriminate | ].
    split; [split; [discriminate | intros [_ [r Hr]]; discriminate] | ].
    split; [intros _; split; [reflexivity | eexists; reflexivity] | reflexivity].
Qed.

(** X11. The handler sees its parameters only through their decimal values:
    two requests whose well-formed parameters have the same values, such as
    [007] and [7], are handled alike. *)
Theorem handler_value_only (gcdClient : GCDServiceClient) (c c' : Context) :
  Decimal.is_uint64_literal (Param c "a") = true ->
  Decimal.is_uint64_literal (Param c "b") = true ->
  Decimal.is_uint64_literal (Param c' "a") = true ->
  Decimal.is_uint64_literal (Param c' "b") = true ->
  Decimal.value (Param c "a") = Decimal.value (Param c' "a") ->
  Decimal.value (Param c "b") = Decimal.value (Param c' "b") ->
  handler gcdClient c = handler gcdClient c'.
Proof.
  intros Ha Hb Ha' Hb' Eva Evb.
  rewrite (handler_parsed gcdClient c Ha Hb), (handler_parsed gcdClient c' Ha' Hb').
  rewrite Eva, Evb. reflexivity.
Qed.

(** X12. The two services composed, with a transport that loses nothing:
    the gateway answers two well-formed parameters with status 200 and the
    decimal notation of the greatest common divisor of their values, after
    one call. *)
Theorem gateway_end_to_end (fuel : nat) (c : Context) :
  Decimal.is_uint64_literal (Param c "a") = true ->
  Decimal.is_uint64_literal (Param c "b") = true ->
  (Server.fuel64 <= fuel)%nat ->
  handler (local_client fuel) c =
    {| response :=
         {| code := StatusOK;
            obj := [("result",
                     VString (fmt.Sprint (Z.gcd (Decimal.value (Param c "a"))
                                                (Decimal.value (Param c "b")))))] |};
       calls := [ {| A := Decimal.value (Param c "a");
                     B := Decimal.value (Param c "b") |} ] |}.
Proof.
  intros Ha Hb Hfuel.
  rewrite (handler_parsed _ c Ha Hb). cbv zeta.
  rewrite local_client_gcd;
    [reflexivity | split; apply literal_value_uint64; assumption | exact Hfuel].
Qed.

(** X13. The result the gateway prints is itself a well-formed parameter,
    and a fixed point: asking for the greatest common divisor of the result
    with itself gives the same response again. *)
Theorem gateway_result_feedback (fuel : nat) (c : Context) :
  Decimal.is_uint64_literal (Param c "a") = true ->
  Decimal.is_uint64_literal (Param c "b") = true ->
  (Server.fuel64 <= fuel)%nat ->
  exists r : string,
    obj (response (handler (local_client fuel) c)) = [("result", VString r)] /\
    Decimal.is_uint64_literal r = true /\
    response (handler (local_client fuel) (route r r)) =
      response (handler (local_client fuel) c).
Proof.
  intros Ha Hb Hfuel.
  set (g := Z.gcd (Decimal.value (Param c "a")) (Decimal.value (Param c "b"))).
  assert (Hg : is_uint64 g).
  { apply gcd_uint64; apply literal_value_uint64; assumption. }
  destruct (Sprint_literal g Hg) as [Hlit Hval].
  exists (fmt.Sprint g).
  assert (Hpa : Param (route (fmt.Sprint g) (fmt.Sprint g)) "a" = fmt.Sprint g)
    by reflexivity.
  assert (Hpb : Param (route (fmt.Sprint g) (fmt.Sprint g)) "b" = fmt.Sprint g)
    by reflexivity.
  rewrite (handler_parsed _ c Ha Hb).
  rewrite handler_parsed by (rewrite ?Hpa, ?Hpb; exact Hlit).
  rewrite Hpa, Hpb, Hval. cbv zeta.
  rewrite !local_client_gcd;
    try exact Hfuel; try (split; first [exact Hg | apply literal_value_uint64; assumption]).
  fold g. simpl. rewrite Z.gcd_diag, Z.abs_eq by apply Hg.
  split; [reflexivity | ]. split; [exact Hlit | reflexivity].
Qed.

End ApiExtras.

(** * Further properties of the parser and of the printer *)

Section CodecExtras.

Import strconv Decimal fmt.

Lemma parse_loop_error_value (s : string) :
  forall n v e, parse_loop s n = (v, Some e) ->
    v = match e with ErrSyntax => 0 | ErrRange => uint64_max end.
Proof.
  induction s as [| ch s IH]; intros n v e H; simpl in H; [discriminate | ].
  destruct (digit_value (byte_of ch)) as [d | ].
  - destruct (d >=? base).
    + injection H as <- <-. reflexivity.
    + destruct (n >=? cutoff).
      * injection H as <- <-. reflexivity.
      * destruct ((wrap64 (wrap64 (n * base) + d) <? wrap64 (n * base))
                  || (wrap64 (wrap64 (n * base) + d) >? maxVal)).
        -- injection H as <- <-. reflexivity.
        -- apply (IH _ _ _ H).
  - injection H as <- <-. reflexivity.
Qed.

(** X14. [ParseUint], as the gateway calls it, accepts exactly the non-empty
    strings of decimal digits whose value fits in 64 bits (leading zeros
    allowed, signs and blanks refused) and returns that value; with an
    error it returns 0 for a syntax error and [2^64-1] for a range error. *)
Theorem ParseUint_accepts_iff (s : string) (v : Z) :
  (ParseUint s = (v, None) <-> is_uint64_literal s = true /\ v = value s) /\
  (forall e, ParseUint s = (v, Some e) ->
     is_uint64_literal s = false /\
     v = match e with ErrSyntax => 0 | ErrRange => uint64_max end).
Proof.
  split.
  - split.
    + intros H. destruct (is_uint64_literal s) eqn:E.
      * rewrite (ParseUint_literal s E) in H. injection H as <-.
        split; reflexivity.
      * destruct (ParseUint_not_literal s E) as [v' [e H']].
        rewrite H' in H. discriminate.
    + intros [E ->]. apply ParseUint_literal. exact E.
  - intros e H. split.
    + destruct (is_uint64_literal s) eqn:E; [ | reflexivity].
      rewrite (ParseUint_literal s E) in H. discriminate.
    + destruct s as [| ch s].
      * simpl in H. injection H as <- <-. reflexivity.
      * apply (parse_loop_error_value _ _ _ _ H).
Qed.

Lemma length_snoc (s : string) (ch : ascii) :
  String.length (s ++ String ch "") = S (String.length s).
Proof.
  induction s as [| c s IH]; simpl; [reflexivity | rewrite IH; reflexivity].
Qed.

(** The shape of what the printing loop writes: a first digit, which is not
    ['0'] for a positive number, and at most [fuel] more. *)
Lemma fmt_loop_shape (fuel : nat) :
  forall u buf, 0 <= u < 10 ^ Z.of_nat (S fuel) ->
    exists c rest,
      fmt_loop (S fuel) u buf = String c (rest ++ buf) /\
      (String.length rest <= fuel)%nat /\
      (0 < u -> byte_of c <> 48).
Proof.
  induction fuel as [| fuel IH]; intros u buf Hu.
  - change (10 ^ Z.of_nat 1) with 10 in Hu.
    exists (digit_char u), "". simpl.
    rewrite Z.geb_leb. destruct (Z.leb_spec 10 u) as [Hbad | _]; [lia | ].
    split; [reflexivity | ]. split; [apply le_n | ].
    intros Hpos. rewrite byte_of_digit_char by lia. lia.
  - change (fmt_loop (S (S fuel)) u buf) with
      (if u >=? 10
       then fmt_loop (S fuel) (u / 10) (String (digit_char (u - u / 10 * 10)) buf)
       else String (digit_char u) buf).
    rewrite Z.geb_leb. destruct (Z.leb_spec 10 u) as [Hbig | Hsmall].
    + assert (Hq : 0 < u / 10 < 10 ^ Z.of_nat (S fuel)).
      { rewrite (Nat2Z.inj_succ (S fuel)), Z.pow_succ_r in Hu by lia.
        split; [apply Z.div_str_pos; lia | apply Z.div_lt_upper_bound; lia]. }
      destruct (IH (u / 10) (String (digit_char (u - u / 10 * 10)) buf)
                  ltac:(lia)) as [c [rest [Hs [Hlen Hc]]]].
      exists c, (rest ++ String (digit_char (u - u / 10 * 10)) "")%string.
      split; [rewrite Hs, append_String_assoc; reflexivity | ].
      split; [rewrite length_snoc; lia | ].
      intros _. apply Hc. lia.
    + exists (digit_char u), "".
      split; [reflexivity | ]. split; [simpl; lia | ].
      intros Hpos. rewrite byte_of_digit_char by lia. lia.
Qed.

(** X15. What the gateway prints for a 64-bit result is in canonical form:
    between 1 and 20 characters, and no leading zero, the number 0 being
    printed as the one digit ["0"]. *)
Theorem Sprint_canonical (u : Z) :
  is_uint64 u ->
  (1 <= String.length (Sprint u) <= 20)%nat /\
  (u = 0 -> Sprint u = "0") /\
  (u <> 0 -> exists c rest, Sprint u = String c rest /\ byte_of c <> 48).
Proof.
  intros [Hu0 Hu]. unfold Sprint.
  destruct (fmt_loop_shape 19 u "") as [c [rest [Hs [Hlen Hc]]]].
  { rewrite uint64_max_value in Hu.
    change (10 ^ Z.of_nat 20) with 100000000000000000000. lia. }
  rewrite Hs, append_empty_r. simpl.
  split; [lia | ].
  split; [intros ->; rewrite append_empty_r in Hs; rewrite <- Hs; reflexivity | ].
  intros Hne. exists c, rest. split; [reflexivity | apply Hc; lia].
Qed.

(** X16. Distinct 64-bit results are printed as distinct strings: the
    response body determines the result. *)
Theorem Sprint_injective (u v : Z) :
  is_uint64 u -> is_uint64 v -> Sprint u = Sprint v -> u = v.
Proof.
  intros Hu Hv E.
  destruct (Sprint_literal u Hu) as [_ Eu].
  destruct (Sprint_literal v Hv) as [_ Ev].
  rewrite <- Eu, <- Ev, E. reflexivity.
Qed.

End CodecExtras.

Section ExtraWitnesses.

Import proto Server Trace Api.

Lemma Computer_tests_bound_witness :
  Computer tests64 tt {| A := 294; B := 462 |} = Returns ({| Result := 42 |}, None) /\
  forall n, (List.length (states n 294 462) <= tests64)%nat.
Proof.
  apply (Computer_tests_bound tests64 tt {| A := 294; B := 462 |}).
  - split; apply uint64_small; simpl; lia.
  - apply le_n.
Defined.

Lemma states_invariant_witness :
  Forall (fun s => Z.gcd (fst s) (snd s) = Z.gcd 48 18 /\
                   0 <= fst s <= Z.max 48 18 /\ 0 <= snd s <= Z.max 48 18)
         (states 10 48 18).
Proof.
  apply (states_invariant 10 48 18); lia.
Defined.

Lemma loop_returns_gcd_witness : 6 = Z.gcd 48 18.
Proof.
  apply (loop_returns_gcd 4 48 18 6); [lia | lia | reflexivity].
Defined.

Lemma compute_assoc_witness :
  exists x y r,
    compute fuel64 12 18 = Returns x /\ compute fuel64 x 27 = Returns r /\
    compute fuel64 18 27 = Returns y /\ compute fuel64 12 y = Returns r.
Proof.
  apply (compute_assoc fuel64 12 18 27);
    first [apply uint64_small; lia | apply le_n].
Defined.

Lemma compute_scale_witness :
  exists r, compute fuel64 4 6 = Returns r /\
            compute fuel64 (7 * 4) (7 * 6) = Returns (7 * r).
Proof.
  apply (compute_scale fuel64 7 4 6);
    first [apply uint64_small; lia | apply le_n | lia].
Defined.

Lemma compute_divisor_witness :
  compute fuel64 48 6 = Returns 6 /\ compute fuel64 6 48 = Returns 6.
Proof.
  apply (compute_divisor fuel64 48 6);
    first [apply uint64_small; lia | apply le_n | discriminate | reflexivity].
Defined.

Lemma compute_bounds_witness :
  exists r, compute fuel64 0 5 = Returns r /\
            1 <= r /\ (0 <> 0 -> r <= 0) /\ (5 <> 0 -> r <= 5).
Proof.
  apply (compute_bounds fuel64 0 5);
    first [apply uint64_small; lia | apply le_n | intros [_ E]; discriminate E].
Defined.

Lemma handler_validation_order_witness :
  handler (local_client fuel64) (route "-1" "4x") =
    {| response := {| code := 400;
                      obj := [("error", VString "Invalid parameter A")] |};
       calls := [] |}.
Proof.
  apply (handler_validation_order (local_client fuel64) (route "-1" "4x")).
  left. reflexivity.
Defined.

Lemma handler_value_only_witness :
  handler (local_client fuel64) (route "0294" "462") =
  handler (local_client fuel64) (route "294" "00462").
Proof.
  apply (handler_value_only (local_client fuel64)
           (route "0294" "462") (route "294" "00462"));
    reflexivity.
Defined.

Lemma gateway_end_to_end_witness :
  handler (local_client fuel64) (route "294" "462") =
    {| response := {| code := 200;
                      obj := [("result", VString (fmt.Sprint (Z.gcd 294 462)))] |};
       calls := [ {| A := 294; B := 462 |} ] |}.
Proof.
  apply (gateway_end_to_end fuel64 (route "294" "462"));
    first [reflexivity | apply le_n].
Defined.

Lemma gateway_result_feedback_witness :
  exists r : string,
    obj (response (handler (local_client fuel64) (route "294" "462")))
      = [("result", VString r)] /\
    Decimal.is_uint64_literal r = true /\
    response (handler (local_client fuel64) (route r r)) =
      response (handler (local_client fuel64) (route "294" "462")).
Proof.
  apply (gateway_result_feedback fuel64 (route "294" "462"));
    first [reflexivity | apply le_n].
Defined.

Lemma Sprint_canonical_witness :
  (1 <= String.length (fmt.Sprint 42) <= 20)%nat.
Proof.
  apply (Sprint_canonical 42). apply uint64_small. lia.
Defined.

Lemma Sprint_injective_witness : 42 = 42.
Proof.
  apply (Sprint_injective 42 42);
    first [apply uint64_small; lia | reflexivity].
Defined.

End ExtraWitnesses.
